(** * Registration: a user table behind four Python functions

    Verification of [registration.py]: [create_db], [is_valid_email],
    [add_user], [authenticate_user] and [display_users], which talk to one
    SQLite table

      users(username TEXT PRIMARY KEY, email TEXT NOT NULL, password TEXT NOT NULL)

    The development has three layers:
    - [Regex]: the fragment of Python's [re] that the email pattern uses,
      with a matcher and its declarative meaning;
    - [Sqlite]: the storage engine as the program sees it: a database that
      may be unusable, may lack the table, or holds the rows in insertion
      order; every statement either returns or raises;
    - [Registration]: the five functions, written in a small state and
      exception monad so that [with], [try] and [except] read as in the
      source. *)

From Stdlib Require Import String Ascii List Bool Arith Lia.
Import ListNotations.
Local Open Scope list_scope.
Local Open Scope string_scope.

(** A Python [str] is modelled as a Rocq [string]; the program only compares
    strings for equality and tests characters against ['@'] and ['.']. *)

(** ** Strings *)

Module Str.

(** Python truthiness of a [str]: [not s] holds exactly for the empty one. *)
Definition truthy (s : string) : bool :=
  match s with
  | EmptyString => false
  | String _ _ => true
  end.

Fixpoint all_chars (f : ascii -> bool) (s : string) : bool :=
  match s with
  | EmptyString => true
  | String c s' => f c && all_chars f s'
  end.

Fixpoint last_char (s : string) : option ascii :=
  match s with
  | EmptyString => None
  | String c EmptyString => Some c
  | String _ s' => last_char s'
  end.

End Str.

(** ** The regular expressions of the program

    [re.match(r"[^@]+@[^@]+\.[^@]+", email)] uses character classes, literal
    characters, the quantifier [+] and concatenation; [re.match] anchors the
    pattern at the start of the subject and leaves its end free. *)

Module Regex.

(** One pattern element: a set of characters, taken once or one or more
    times. *)
Inductive quantifier := Once | OneOrMore.

Record item := Item { accepts : ascii -> bool; quant : quantifier }.

Definition pattern := list item.

(** [[^c]] and the literal [c]. *)
Definition is_char (c : ascii) : ascii -> bool := fun x => Ascii.eqb x c.
Definition not_char (c : ascii) : ascii -> bool := fun x => negb (Ascii.eqb x c).

(** The backtracking matcher: at [OneOrMore] it first tries to take more
    characters of the class (greedy), then to go on with the rest of the
    pattern. An exhausted pattern succeeds wherever the subject stands. *)
Fixpoint match_here (p : pattern) (s : string) {struct s} : bool :=
  match p with
  | [] => true
  | Item f Once :: p' =>
      match s with
      | EmptyString => false
      | String c s' => f c && match_here p' s'
      end
  | Item f OneOrMore :: p' =>
      match s with
      | EmptyString => false
      | String c s' =>
          f c && (match_here (Item f OneOrMore :: p') s' || match_here p' s')
      end
  end.

(** [re.match(p, s) is not None] *)
Definition re_match (p : pattern) (s : string) : bool := match_here p s.

(** What a pattern means: the subject starts with a word of the pattern. *)
Fixpoint starts_with (p : pattern) (s : string) : Prop :=
  match p with
  | [] => True
  | Item f Once :: p' =>
      exists c rest, s = String c rest /\ f c = true /\ starts_with p' rest
  | Item f OneOrMore :: p' =>
      exists run rest,
        s = run ++ rest /\ run <> "" /\ Str.all_chars f run = true /\
        starts_with p' rest
  end.

End Regex.

(** ** Email validation *)

(** [r"[^@]+@[^@]+\.[^@]+"] *)
Definition email_pattern : Regex.pattern :=
  [ Regex.Item (Regex.not_char "@") Regex.OneOrMore;
    Regex.Item (Regex.is_char "@") Regex.Once;
    Regex.Item (Regex.not_char "@") Regex.OneOrMore;
    Regex.Item (Regex.is_char ".") Regex.Once;
    Regex.Item (Regex.not_char "@") Regex.OneOrMore ].

Definition is_valid_email (email : string) : bool :=
  Regex.re_match email_pattern email.

(** [no_at s]: no character of [s] is ['@']. *)
Definition no_at (s : string) : bool := Str.all_chars (Regex.not_char "@") s.
Definition no_dot (s : string) : bool := Str.all_chars (Regex.not_char ".") s.

(** The rule in the words of the specification: some text before the ['@'],
    some text between the ['@'] and the final ['.'], some text after the
    final ['.'].  The ['.'] that splits [domain] from [tld] is the final one
    exactly when [tld] holds no ['.']. *)
Definition loose_local_domain_tld (e : string) : Prop :=
  exists local domain tld,
    e = local ++ "@" ++ domain ++ "." ++ tld /\
    local <> "" /\ domain <> "" /\ tld <> "" /\ no_dot tld = true.

(** The rule of the code: the address starts with [local@domain.tld] where
    none of the three parts is empty or holds an ['@'], and anything may
    follow. *)
Definition prefix_local_domain_tld (e : string) : Prop :=
  exists local domain tld rest,
    e = local ++ "@" ++ domain ++ "." ++ tld ++ rest /\
    local <> "" /\ domain <> "" /\ tld <> "" /\
    no_at local = true /\ no_at domain = true /\ no_at tld = true.

(** ** The storage engine *)

(** One row of [users]. *)
Record Row := mkRow { username : string; email : string; password : string }.

Module Sqlite.

(** The exceptions of the [sqlite3] module that the statements of the program
    can raise; both derive from [Exception]. *)
Inductive exn :=
| IntegrityError     (* a constraint failed: UNIQUE on users.username *)
| OperationalError.  (* no such table, unable to open the database file, ... *)

(** The database file [DB_NAME] as the program can find it.  A file that does
    not exist yet is created empty by [sqlite3.connect], so it counts as
    [NoTable].  In [Users rows] the rows stand in insertion order, the order
    in which a scan of the table returns them. *)
Inductive database :=
| Unavailable                 (* the storage layer fails on every access *)
| NoTable                     (* no table [users] *)
| Users (rows : list Row).    (* the table and its rows *)

(** What reached the storage layer, most recent first. *)
Inductive statement :=
| CreateTableIfNotExists
| InsertInto (r : Row)
| SelectWhere (u p : string)
| SelectUsernameEmail.

Inductive event :=
| Connect
| Execute (q : statement)
| Commit
| Rollback.

Record world := World { store : database; journal : list event }.

Definition record (ev : event) (w : world) : world :=
  World (store w) (ev :: journal w).

(** The rows a state holds. *)
Definition rows_of (d : database) : list Row :=
  match d with
  | Users rows => rows
  | _ => []
  end.

(** A call returns a value or raises. *)
Inductive outcome (A : Type) :=
| Return (a : A)
| Raise (e : exn).
Arguments Return {A} a.
Arguments Raise {A} e.

(** Computations over the world that may raise. *)
Definition Py (A : Type) : Type := world -> outcome A * world.

Definition ret {A} (a : A) : Py A := fun w => (Return a, w).

Definition raise {A} (e : exn) : Py A := fun w => (Raise e, w).

Definition bind {A B} (m : Py A) (k : A -> Py B) : Py B :=
  fun w =>
    match m w with
    | (Return a, w') => k a w'
    | (Raise e, w') => (Raise e, w')
    end.

(** [try: body except ...: handler] *)
Definition try_except {A} (body : Py A) (handler : exn -> Py A) : Py A :=
  fun w =>
    match body w with
    | (Return a, w') => (Return a, w')
    | (Raise e, w') => handler e w'
    end.

Definition result {A} (m : Py A) (w : world) : outcome A := fst (m w).
Definition after {A} (m : Py A) (w : world) : world := snd (m w).

Definition has_username (u : string) (r : Row) : bool :=
  String.eqb (username r) u.

(** [username=? AND password=?]: TEXT columns compare byte for byte. *)
Definition matches (u p : string) (r : Row) : bool :=
  String.eqb (username r) u && String.eqb (password r) p.

(** [sqlite3.connect(DB_NAME)] *)
Definition connect : Py unit :=
  fun w =>
    match store w with
    | Unavailable => (Raise OperationalError, record Connect w)
    | _ => (Return tt, record Connect w)
    end.

(** [conn.commit()] *)
Definition commit : Py unit := fun w => (Return tt, record Commit w).

Definition rollback : Py unit := fun w => (Return tt, record Rollback w).

(** [CREATE TABLE IF NOT EXISTS users (...)] *)
Definition execute_create : Py unit :=
  fun w =>
    let w' := record (Execute CreateTableIfNotExists) w in
    match store w with
    | Unavailable => (Raise OperationalError, w')
    | NoTable => (Return tt, World (Users []) (journal w'))
    | Users _ => (Return tt, w')
    end.

(** [INSERT INTO users (username, email, password) VALUES (?, ?, ?)]: the
    primary key refuses a second row with the same [username]. *)
Definition execute_insert (r : Row) : Py unit :=
  fun w =>
    let w' := record (Execute (InsertInto r)) w in
    match store w with
    | Unavailable => (Raise OperationalError, w')
    | NoTable => (Raise OperationalError, w')
    | Users rows =>
        if existsb (has_username (username r)) rows
        then (Raise IntegrityError, w')
        else (Return tt, World (Users (rows ++ [r])) (journal w'))
    end.

(** [SELECT * FROM users WHERE username=? AND password=?]: the result set of
    the cursor. *)
Definition execute_select_where (u p : string) : Py (list Row) :=
  fun w =>
    let w' := record (Execute (SelectWhere u p)) w in
    match store w with
    | Unavailable => (Raise OperationalError, w')
    | NoTable => (Raise OperationalError, w')
    | Users rows => (Return (filter (matches u p) rows), w')
    end.

(** [SELECT username, email FROM users] *)
Definition execute_select_username_email : Py (list (string * string)) :=
  fun w =>
    let w' := record (Execute SelectUsernameEmail) w in
    match store w with
    | Unavailable => (Raise OperationalError, w')
    | NoTable => (Raise OperationalError, w')
    | Users rows => (Return (map (fun r => (username r, email r)) rows), w')
    end.

(** [cursor.fetchone()]: the first row of the result set, or [None]. *)
Definition fetchone {A} (result_set : list A) : option A := hd_error result_set.

(** [cursor.fetchall()] *)
Definition fetchall {A} (result_set : list A) : list A := result_set.

(** [with sqlite3.connect(DB_NAME) as conn: body]: the connection commits
    when the body returns and rolls back when it raises, and the exception
    goes on to the caller. *)
Definition with_connection {A} (body : Py A) : Py A :=
  bind connect (fun _ =>
    fun w =>
      match body w with
      | (Return a, w') => (Return a, snd (commit w'))
      | (Raise e, w') => (Raise e, snd (rollback w'))
      end).

End Sqlite.

Import Sqlite.

Declare Scope py_scope.
Delimit Scope py_scope with py.
Notation "x <- m ;; k" := (bind m (fun x => k))
  (at level 61, m at next level, right associativity) : py_scope.
Notation "m ;;; k" := (bind m (fun _ => k))
  (at level 61, right associativity) : py_scope.

(** ** The program *)

Definition create_db : Py unit :=
  with_connection (execute_create ;;; commit)%py.

Definition add_user (username email password : string) : Py bool :=
  if negb (Str.truthy username) || negb (Str.truthy email)
     || negb (Str.truthy password) || negb (is_valid_email email)
  then ret false
  else
    try_except
      (with_connection
         (execute_insert (mkRow username email password) ;;; commit) ;;;
       ret true)%py
      (fun e =>
         match e with
         | IntegrityError => ret false    (* except sqlite3.IntegrityError *)
         | _ => ret false                 (* except Exception *)
         end).

Definition authenticate_user (username password : string) : Py bool :=
  if negb (Str.truthy username) || negb (Str.truthy password)
  then ret false
  else
    with_connection
      (rs <- execute_select_where username password ;;
       ret (match fetchone rs with Some _ => true | None => false end))%py.

Definition display_users : Py (list (string * string)) :=
  with_connection
    (rs <- execute_select_username_email ;;
     let users := fetchall rs in
     ret (match users with [] => [] | _ :: _ => users end))%py.

(** ** Vocabulary of the statements *)

(** The inputs that pass the guard of [add_user]. *)
Definition valid_input (username email password : string) : Prop :=
  username <> "" /\ email <> "" /\ password <> "" /\ is_valid_email email = true.

(** The inputs that the guard of [add_user] turns away. *)
Definition invalid_input (username email password : string) : Prop :=
  username = "" \/ email = "" \/ password = "" \/ is_valid_email email = false.

(** What a listing of the table shows: one pair per row, in table order. *)
Definition listing (rows : list Row) : list (string * string) :=
  map (fun r => (username r, email r)) rows.

(** The table has the row: the store is initialised and holds it. *)
Definition stored (r : Row) (w : world) : Prop := In r (rows_of (store w)).

(** The primary key holds: no two rows share a [username]. *)
Definition unique_usernames (rows : list Row) : Prop :=
  NoDup (map username rows).

(** A row that passed the guard of [add_user]. *)
Definition well_formed_row (r : Row) : Prop :=
  valid_input (username r) (email r) (password r).

(** What the table is meant to satisfy: the primary key, and rows that were
    valid when they came in. *)
Definition table_invariant (d : database) : Prop :=
  unique_usernames (rows_of d) /\ Forall well_formed_row (rows_of d).

(** ** Callers

    A caller uses the four functions in any order and with any arguments;
    an exception ends the call that raised it, not the caller. *)
Inductive call :=
| CreateDb
| AddUser (username email password : string)
| AuthenticateUser (username password : string)
| DisplayUsers.

(** The world after one call. *)
Definition perform (c : call) (w : world) : world :=
  match c with
  | CreateDb => after create_db w
  | AddUser u e p => after (add_user u e p) w
  | AuthenticateUser u p => after (authenticate_user u p) w
  | DisplayUsers => after display_users w
  end.

(** The world after a sequence of calls, first call first. *)
Definition session (cs : list call) (w : world) : world :=
  fold_left (fun v c => perform c v) cs w.

(** The store is initialised: the table [users] exists. *)
Definition has_table (w : world) : Prop := exists rows, store w = Users rows.

(** ** The test class [TestUserDatabase]

    A test method runs against the database file that the class set up; it
    passes, fails on an assertion, or ends in the exception that the code
    under test let through. *)

Module Unittest.

Inductive verdict :=
| Passed
| Failed                (* AssertionError *)
| Errored (e : exn).    (* any other exception *)

Definition Test : Type := world -> verdict * world.

(** The test is over and no assertion failed. *)
Definition passed : Test := fun w => (Passed, w).

(** [x = f(...)] inside a test method. *)
Definition calling {A} (m : Py A) (k : A -> Test) : Test :=
  fun w =>
    match m w with
    | (Return a, w') => k a w'
    | (Raise e, w') => (Errored e, w')
    end.

Definition assertTrue (b : bool) (k : Test) : Test :=
  fun w => if b then k w else (Failed, w).

Definition assertFalse (b : bool) (k : Test) : Test :=
  fun w => if b then (Failed, w) else k w.

(** [==] on the tuples that [display_users] returns. *)
Definition pair_eqb (a b : string * string) : bool :=
  String.eqb (fst a) (fst b) && String.eqb (snd a) (snd b).

Fixpoint list_eqb (a b : list (string * string)) : bool :=
  match a, b with
  | [], [] => true
  | x :: a', y :: b' => pair_eqb x y && list_eqb a' b'
  | _, _ => false
  end.

(** [assertEqual(len(users), n)] *)
Definition assertLen (users : list (string * string)) (n : nat) (k : Test) : Test :=
  assertTrue (Nat.eqb (List.length users) n) k.

(** [assertEqual(users, expected)] *)
Definition assertEqual (users expected : list (string * string)) (k : Test) : Test :=
  assertTrue (list_eqb users expected) k.

(** [assertIn(member, users)] *)
Definition assertIn (member : string * string) (users : list (string * string))
  (k : Test) : Test :=
  assertTrue (existsb (pair_eqb member) users) k.

(** [os.remove(DB_NAME)]: whether the operating system lets the file go is
    not in the hands of the program, so it is an input; [None] stands for the
    exception of a removal that failed.  Without the file there is no table. *)
Definition os_remove (removable : bool) (w : world) : option world :=
  if removable then Some (World NoTable (journal w)) else None.

Definition setUpClass : Py unit := create_db.

(** The exception of [os.remove] is caught and printed. *)
Definition tearDownClass (removable : bool) (w : world) : world :=
  match os_remove removable w with
  | Some w' => w'
  | None => w
  end.

Definition test_add_user_success : Test :=
  calling (add_user "validuser" "user@example.com" "password123") (fun r =>
  assertTrue r passed).

Definition test_add_user_duplicate : Test :=
  calling (add_user "duplicateuser" "duplicate@example.com" "password123") (fun r1 =>
  assertTrue r1 (
  calling (add_user "duplicateuser" "newemail@example.com" "newpassword") (fun r2 =>
  assertFalse r2 passed))).

Definition test_add_user_empty_username : Test :=
  calling (add_user "" "test@example.com" "password123") (fun r =>
  assertFalse r passed).

Definition test_add_user_empty_email : Test :=
  calling (add_user "user" "" "password123") (fun r =>
  assertFalse r passed).

Definition test_add_user_empty_password : Test :=
  calling (add_user "user" "user@example.com" "") (fun r =>
  assertFalse r passed).

Definition test_authenticate_user_success : Test :=
  calling (add_user "testauth" "auth@example.com" "password123") (fun _ =>
  calling (authenticate_user "testauth" "password123") (fun r =>
  assertTrue r passed)).

Definition test_authenticate_user_not_exist : Test :=
  calling (authenticate_user "nonexistentuser" "somepassword") (fun r =>
  assertFalse r passed).

Definition test_authenticate_user_invalid_password : Test :=
  calling (add_user "testauth2" "auth2@example.com" "correctpassword") (fun _ =>
  calling (authenticate_user "testauth2" "wrongpassword") (fun r =>
  assertFalse r passed)).

Definition test_authenticate_user_empty_credentials : Test :=
  calling (authenticate_user "" "") (fun r =>
  assertFalse r passed).

Definition test_display_users : Test :=
  calling (add_user "user1" "user1@example.com" "password1") (fun _ =>
  calling (add_user "user2" "user2@example.com" "password2") (fun _ =>
  calling display_users (fun users =>
  assertLen users 2 (
  assertIn ("user1", "user1@example.com") users (
  assertIn ("user2", "user2@example.com") users passed))))).

Definition test_display_users_empty (removable : bool) : Test :=
  fun w =>
    calling display_users (fun users =>
    assertEqual users [] passed) (tearDownClass removable w).

(** The test methods in the order of the class body. *)
Definition test_methods (removable : bool) : list (string * Test) :=
  [ ("test_add_user_success", test_add_user_success);
    ("test_add_user_duplicate", test_add_user_duplicate);
    ("test_add_user_empty_username", test_add_user_empty_username);
    ("test_add_user_empty_email", test_add_user_empty_email);
    ("test_add_user_empty_password", test_add_user_empty_password);
    ("test_authenticate_user_success", test_authenticate_user_success);
    ("test_authenticate_user_not_exist", test_authenticate_user_not_exist);
    ("test_authenticate_user_invalid_password",
     test_authenticate_user_invalid_password);
    ("test_authenticate_user_empty_credentials",
     test_authenticate_user_empty_credentials);
    ("test_display_users", test_display_users);
    ("test_display_users_empty", test_display_users_empty removable) ].

(** The loader of [unittest] runs the methods sorted by name. *)
Fixpoint insert_by_name (t : string * Test) (ts : list (string * Test))
  : list (string * Test) :=
  match ts with
  | [] => [t]
  | x :: ts' =>
      if String.leb (fst t) (fst x) then t :: x :: ts'
      else x :: insert_by_name t ts'
  end.

Definition sorted_by_name (ts : list (string * Test)) : list (string * Test) :=
  fold_right insert_by_name [] ts.

(** Each method runs on the world the one before it left; its verdict does
    not stop the run. *)
Fixpoint run_tests (ts : list (string * Test)) (w : world)
  : list (string * verdict) * world :=
  match ts with
  | [] => ([], w)
  | (name, t) :: ts' =>
      let (v, w1) := t w in
      let (vs, w2) := run_tests ts' w1 in
      ((name, v) :: vs, w2)
  end.

(** [unittest.main()] on the one class: [setUpClass], the methods,
    [tearDownClass]; an exception of [setUpClass] ends the class before any
    method runs.  [in_test] and [at_end] say whether the removal of the file
    succeeds inside [test_display_users_empty] and at the end. *)
Definition run_class (in_test at_end : bool) (w : world)
  : outcome (list (string * verdict)) * world :=
  match setUpClass w with
  | (Raise e, w') => (Raise e, w')
  | (Return _, w0) =>
      let (vs, w1) := run_tests (sorted_by_name (test_methods in_test)) w0 in
      (Return vs, tearDownClass at_end w1)
  end.

End Unittest.

(** * Properties *)

(** ** Strings *)

Module StrFacts.
Import Str.

Lemma truthy_true (s : string) : truthy s = true <-> s <> "".
Proof.
  destruct s; simpl; split; intro H; congruence.
Qed.

Lemma truthy_false (s : string) : truthy s = false <-> s = "".
Proof.
  destruct s; simpl; split; intro H; congruence.
Qed.

Lemma append_nil_r (s : string) : s ++ "" = s.
Proof.
  induction s as [|c s IH]; simpl; [reflexivity | now rewrite IH].
Qed.

Lemma append_assoc (a b c : string) : (a ++ b) ++ c = a ++ (b ++ c).
Proof.
  induction a as [|x a IH]; simpl; [reflexivity | now rewrite IH].
Qed.

Lemma append_not_empty_r (a b : string) : b <> "" -> a ++ b <> "".
Proof.
  destruct a; simpl; [auto | discriminate].
Qed.

Lemma last_char_append (a b : string) :
  b <> "" -> last_char (a ++ b) = last_char b.
Proof.
  intro Hb. induction a as [|x a IH]; simpl; [reflexivity|].
  rewrite IH. destruct (a ++ b) eqn:E; [|reflexivity].
  exfalso. now apply (append_not_empty_r a b Hb).
Qed.

Lemma last_char_all (f : ascii -> bool) (s : string) (c : ascii) :
  all_chars f s = true -> last_char s = Some c -> f c = true.
Proof.
  induction s as [|x s IH]; simpl; [discriminate|].
  intros Hall Hlast. apply andb_true_iff in Hall as [Hx Hs].
  destruct s as [|y s'].
  - injection Hlast as <-. exact Hx.
  - apply IH; assumption.
Qed.

End StrFacts.

(** ** The matcher computes the meaning of the pattern *)

Module RegexFacts.
Import Regex.

Lemma starts_with_more (f : ascii -> bool) (p : pattern) (c : ascii) (s : string) :
  f c = true ->
  starts_with (Item f OneOrMore :: p) s \/ starts_with p s ->
  starts_with (Item f OneOrMore :: p) (String c s).
Proof.
  intros Hc [(run & rest & -> & _ & Hall & Hp) | Hp].
  - exists (String c run), rest. simpl. rewrite Hc, Hall.
    repeat split; [discriminate | exact Hp].
  - exists (String c ""), s. simpl. rewrite Hc.
    repeat split; [discriminate | exact Hp].
Qed.

Lemma starts_with_less (f : ascii -> bool) (p : pattern) (c : ascii) (s : string) :
  starts_with (Item f OneOrMore :: p) (String c s) ->
  f c = true /\ (starts_with (Item f OneOrMore :: p) s \/ starts_with p s).
Proof.
  intros (run & rest & E & Hne & Hall & Hp).
  destruct run as [|x run]; [congruence|].
  simpl in E, Hall. injection E as <- ->.
  apply andb_true_iff in Hall as [Hx Hall]. split; [exact Hx|].
  destruct run as [|y run].
  - right. exact Hp.
  - left. exists (String y run), rest. repeat split; [discriminate | exact Hall | exact Hp].
Qed.

Theorem match_here_spec (s : string) :
  forall p, match_here p s = true <-> starts_with p s.
Proof.
  induction s as [|c s IH]; intros [|[f [|]] p]; simpl.
  - tauto.
  - split; [discriminate | intros (x & rest & E & _); discriminate].
  - split; [discriminate|].
    intros (run & rest & E & Hne & _). destruct run; [congruence | discriminate].
  - tauto.
  - rewrite andb_true_iff, IH. split.
    + intros [Hc Hp]. exists c, s. auto.
    + intros (x & rest & E & Hx & Hp). injection E as <- <-. auto.
  - rewrite andb_true_iff, orb_true_iff, IH, IH. split.
    + intros [Hc Hp]. apply (starts_with_more f p c s Hc Hp).
    + intro H. apply (starts_with_less f p c s H).
  Qed.

End RegexFacts.

(** ** Email validation *)

Module EmailFacts.
Import Str Regex.

Lemma is_char_eq (c x : ascii) : is_char c x = true <-> x = c.
Proof.
  unfold is_char. apply Ascii.eqb_eq.
Qed.

Lemma valid_email_starts_with (e : string) :
  is_valid_email e = true <-> starts_with email_pattern e.
Proof.
  unfold is_valid_email, re_match. apply RegexFacts.match_here_spec.
Qed.

Lemma loose_ends_without_dot (e : string) :
  loose_local_domain_tld e -> last_char e <> Some "."%char.
Proof.
  intros (l & d & t & -> & _ & _ & Ht & Hdot) Hlast.
  assert (Hne : "." ++ t <> "") by discriminate.
  rewrite StrFacts.last_char_append in Hlast by discriminate.
  rewrite StrFacts.last_char_append in Hlast
    by (apply StrFacts.append_not_empty_r; exact Hne).
  rewrite StrFacts.last_char_append in Hlast by exact Hne.
  rewrite (StrFacts.last_char_append "." t Ht) in Hlast.
  pose proof (StrFacts.last_char_all _ _ _ Hdot Hlast) as H.
  cbv in H. discriminate H.
Qed.

End EmailFacts.

(** C5, as stated, fails: ["a@b.c."] is accepted by [is_valid_email], yet no
    character follows its final ['.'], so the rule of the specification does
    not hold of it. *)
Lemma is_valid_email_not_loose_rule :
  is_valid_email "a@b.c." = true /\ ~ loose_local_domain_tld "a@b.c.".
Proof.
  split; [reflexivity|].
  intro H. now apply (EmailFacts.loose_ends_without_dot "a@b.c." H).
Qed.

(** C5, amended: [is_valid_email e] returns true if and only if [e] starts
    with one or more characters other than ['@'], then ['@'], then one or
    more characters other than ['@'], then ['.'], then one or more characters
    other than ['@']; the ['.'] need not be the final one and any text may
    follow. *)
Theorem is_valid_email_prefix_rule (e : string) :
  is_valid_email e = true <-> prefix_local_domain_tld e.
Proof.
  rewrite EmailFacts.valid_email_starts_with.
  unfold prefix_local_domain_tld, email_pattern, no_at. simpl. split.
  - intros (l & r1 & -> & Hl & Al & c1 & r2 & -> & Hc1 & d & r3 & -> & Hd & Ad
            & c2 & r4 & -> & Hc2 & t & rest & -> & Ht & At & _).
    apply EmailFacts.is_char_eq in Hc1, Hc2. subst c1 c2.
    exists l, d, t, rest. repeat split; assumption.
  - intros (l & d & t & rest & -> & Hl & Hd & Ht & Al & Ad & At).
    exists l, (String "@" (d ++ String "." (t ++ rest))).
    repeat split; try assumption.
    exists "@"%char, (d ++ String "." (t ++ rest)).
    repeat split.
    exists d, (String "." (t ++ rest)). repeat split; try assumption.
    exists "."%char, (t ++ rest). repeat split.
    exists t, rest. repeat split; assumption.
Qed.

(** ** The storage engine and the program, state by state *)

Module ProgramFacts.
Import Str.

Lemma guard_valid (u e p : string) :
  valid_input u e p ->
  negb (truthy u) || negb (truthy e) || negb (truthy p)
  || negb (is_valid_email e) = false.
Proof.
  intros (Hu & He & Hp & Hv).
  apply StrFacts.truthy_true in Hu, He, Hp.
  now rewrite Hu, He, Hp, Hv.
Qed.

Lemma guard_invalid (u e p : string) :
  invalid_input u e p ->
  negb (truthy u) || negb (truthy e) || negb (truthy p)
  || negb (is_valid_email e) = true.
Proof.
  intros [-> | [-> | [-> | Hv]]]; simpl.
  - reflexivity.
  - now rewrite orb_true_r.
  - now rewrite orb_true_r.
  - rewrite Hv. now rewrite orb_true_r.
Qed.

Lemma valid_or_invalid (u e p : string) :
  valid_input u e p \/ invalid_input u e p.
Proof.
  unfold valid_input, invalid_input.
  destruct u; [right; auto|]. destruct e; [right; auto|].
  destruct p; [right; auto|].
  destruct (is_valid_email _) eqn:E; [left | right; auto].
  repeat split; discriminate.
Qed.

Lemma auth_guard_nonempty (u p : string) :
  u <> "" -> p <> "" -> negb (truthy u) || negb (truthy p) = false.
Proof.
  intros Hu Hp. apply StrFacts.truthy_true in Hu, Hp. now rewrite Hu, Hp.
Qed.

Lemma auth_guard_empty (u p : string) :
  u = "" \/ p = "" -> negb (truthy u) || negb (truthy p) = true.
Proof.
  intros [-> | ->]; simpl; [reflexivity | apply orb_true_r].
Qed.

(** [add_user] on each kind of store. *)

Lemma add_user_invalid (u e p : string) (w : world) :
  invalid_input u e p -> add_user u e p w = (Return false, w).
Proof.
  intro H. unfold add_user. now rewrite (guard_invalid u e p H).
Qed.

Lemma add_user_unavailable (u e p : string) (j : list event) :
  valid_input u e p ->
  add_user u e p (World Unavailable j) = (Return false, World Unavailable (Connect :: j)).
Proof.
  intro H. unfold add_user. rewrite (guard_valid u e p H). reflexivity.
Qed.

Lemma add_user_no_table (u e p : string) (j : list event) :
  valid_input u e p ->
  add_user u e p (World NoTable j) =
  (Return false,
   World NoTable (Rollback :: Execute (InsertInto (mkRow u e p)) :: Connect :: j)).
Proof.
  intro H. unfold add_user. rewrite (guard_valid u e p H). reflexivity.
Qed.

Lemma add_user_duplicate (u e p : string) (rows : list Row) (j : list event) :
  valid_input u e p ->
  existsb (has_username u) rows = true ->
  add_user u e p (World (Users rows) j) =
  (Return false,
   World (Users rows)
     (Rollback :: Execute (InsertInto (mkRow u e p)) :: Connect :: j)).
Proof.
  intros H Hdup. unfold add_user. rewrite (guard_valid u e p H).
  unfold try_except, with_connection, bind, connect, execute_insert. simpl.
  now rewrite Hdup.
Qed.

Lemma add_user_fresh (u e p : string) (rows : list Row) (j : list event) :
  valid_input u e p ->
  existsb (has_username u) rows = false ->
  add_user u e p (World (Users rows) j) =
  (Return true,
   World (Users (rows ++ [mkRow u e p]))
     (Commit :: Commit :: Execute (InsertInto (mkRow u e p)) :: Connect :: j)).
Proof.
  intros H Hnew. unfold add_user. rewrite (guard_valid u e p H).
  unfold try_except, with_connection, bind, connect, execute_insert. simpl.
  now rewrite Hnew.
Qed.

Lemma has_username_in (u : string) (rows : list Row) :
  existsb (has_username u) rows = true <-> In u (map username rows).
Proof.
  rewrite existsb_exists, in_map_iff. unfold has_username.
  split; intros (r & H1 & H2); exists r.
  - apply String.eqb_eq in H2. auto.
  - split; [assumption | now apply String.eqb_eq].
Qed.

Lemma has_username_not_in (u : string) (rows : list Row) :
  existsb (has_username u) rows = false <-> ~ In u (map username rows).
Proof.
  rewrite <- has_username_in. destruct (existsb _ _); split; congruence.
Qed.

(** [authenticate_user] and [display_users] on each kind of store. *)

Lemma authenticate_user_users (u p : string) (rows : list Row) (j : list event) :
  u <> "" -> p <> "" ->
  authenticate_user u p (World (Users rows) j) =
  (Return (existsb (matches u p) rows),
   World (Users rows) (Commit :: Execute (SelectWhere u p) :: Connect :: j)).
Proof.
  intros Hu Hp. unfold authenticate_user. rewrite (auth_guard_nonempty u p Hu Hp).
  unfold with_connection, bind, connect, execute_select_where, ret. simpl.
  do 2 f_equal. induction rows as [|r rows IH]; simpl; [reflexivity|].
  destruct (matches u p r); simpl; [reflexivity | exact IH].
Qed.

Lemma authenticate_user_no_table (u p : string) (j : list event) :
  u <> "" -> p <> "" ->
  authenticate_user u p (World NoTable j) =
  (Raise OperationalError,
   World NoTable (Rollback :: Execute (SelectWhere u p) :: Connect :: j)).
Proof.
  intros Hu Hp. unfold authenticate_user. now rewrite (auth_guard_nonempty u p Hu Hp).
Qed.

Lemma authenticate_user_unavailable (u p : string) (j : list event) :
  u <> "" -> p <> "" ->
  authenticate_user u p (World Unavailable j) =
  (Raise OperationalError, World Unavailable (Connect :: j)).
Proof.
  intros Hu Hp. unfold authenticate_user. now rewrite (auth_guard_nonempty u p Hu Hp).
Qed.

Lemma matches_exists (u p : string) (rows : list Row) :
  existsb (matches u p) rows = true <->
  exists r, In r rows /\ username r = u /\ password r = p.
Proof.
  rewrite existsb_exists. unfold matches.
  split; intros (r & Hin & H); exists r; split; try assumption.
  - apply andb_true_iff in H as [H1 H2].
    now apply String.eqb_eq in H1, H2.
  - destruct H as [H1 H2]. apply andb_true_iff.
    now rewrite H1, H2, !String.eqb_refl.
Qed.

Lemma display_users_users (rows : list Row) (j : list event) :
  display_users (World (Users rows) j) =
  (Return (listing rows),
   World (Users rows) (Commit :: Execute SelectUsernameEmail :: Connect :: j)).
Proof.
  unfold display_users, with_connection, bind, connect,
    execute_select_username_email, fetchall, ret, listing. simpl.
  now destruct (map _ rows).
Qed.

Lemma listing_unique_email (rows : list Row) (r : Row) (e : string) :
  unique_usernames rows -> In r rows -> In (username r, e) (listing rows) ->
  e = email r.
Proof.
  unfold unique_usernames, listing.
  induction rows as [|x rows IH]; simpl; [tauto|].
  intros Hnd Hin He. inversion Hnd as [|? ? Hx Hrest]; subst.
  destruct Hin as [-> | Hin], He as [He | He].
  - now injection He.
  - exfalso. apply Hx. apply in_map_iff in He as (y & Hy & Hyin).
    injection Hy as Hy _. apply in_map_iff. exists y. auto.
  - exfalso. apply Hx. injection He as He _. rewrite He.
    now apply in_map.
  - now apply IH.
Qed.

(** The primary key is an invariant of [add_user]. *)
Lemma add_user_keeps_unique (u e p : string) (rows : list Row) (j : list event) :
  unique_usernames rows ->
  unique_usernames (rows_of (store (after (add_user u e p) (World (Users rows) j)))).
Proof.
  intro Hnd. unfold after.
  destruct (valid_or_invalid u e p) as [Hok | Hbad].
  - destruct (existsb (has_username u) rows) eqn:E.
    + now rewrite (add_user_duplicate u e p rows j Hok E).
    + rewrite (add_user_fresh u e p rows j Hok E). simpl.
      unfold unique_usernames in *. rewrite map_app. simpl.
      apply has_username_not_in in E.
      apply NoDup_app; [exact Hnd | repeat constructor; intros [] |].
      intros a Ha [<- | []]. now apply E.
  - now rewrite (add_user_invalid u e p _ Hbad).
Qed.

End ProgramFacts.

(** ** Registration *)

(** C1. Uniqueness with atomic failure: when the table already holds a row
    [r], [add_user (username r) e p] with non-empty, valid [e] and non-empty
    [p] returns [False] and leaves the table as it was; a listing afterwards
    is the listing before, it shows [r] with its own email, and under the
    primary key no other email stands next to that username. *)
Theorem add_user_duplicate_keeps_store
  (rows : list Row) (j : list event) (r : Row) (e p : string) :
  In r rows -> e <> "" -> p <> "" -> is_valid_email e = true ->
  let w := World (Users rows) j in
  let w' := after (add_user (username r) e p) w in
  result (add_user (username r) e p) w = Return false /\
  store w' = Users rows /\
  result display_users w' = result display_users w /\
  result display_users w' = Return (listing rows) /\
  In (username r, email r) (listing rows) /\
  (unique_usernames rows ->
   forall e', In (username r, e') (listing rows) -> e' = email r).
Proof.
  intros Hin He Hp Hv w w'.
  assert (Hstep : result (add_user (username r) e p) w = Return false /\
                  store w' = Users rows).
  { subst w' w. unfold result, after.
    destruct (ProgramFacts.valid_or_invalid (username r) e p) as [Hok | Hbad].
    - rewrite (ProgramFacts.add_user_duplicate _ _ _ rows j Hok); [now split|].
      apply ProgramFacts.has_username_in. now apply in_map.
    - now rewrite (ProgramFacts.add_user_invalid _ _ _ _ Hbad). }
  destruct Hstep as [Hres Hstore].
  assert (Hlist : forall v, store v = Users rows ->
                            result display_users v = Return (listing rows)).
  { intros [d k] Hd. simpl in Hd. subst d. unfold result.
    now rewrite ProgramFacts.display_users_users. }
  repeat split.
  - exact Hres.
  - exact Hstore.
  - now rewrite (Hlist w' Hstore), (Hlist w eq_refl).
  - exact (Hlist w' Hstore).
  - unfold listing. apply in_map_iff. now exists r.
  - intros Hu e' He'. now apply (ProgramFacts.listing_unique_email rows r e').
Qed.

Lemma add_user_duplicate_keeps_store_witness :
  let rows := [mkRow "u" "a@b.co" "p"] in
  let w := World (Users rows) [] in
  result (add_user "u" "c@d.co" "q") w = Return false /\
  store (after (add_user "u" "c@d.co" "q") w) = Users rows /\
  In ("u", "a@b.co") (listing rows).
Proof.
  intros rows w.
  destruct (add_user_duplicate_keeps_store rows [] (mkRow "u" "a@b.co" "p")
              "c@d.co" "q")
    as (H1 & H2 & _ & _ & H5 & _).
  - simpl. left. reflexivity.
  - discriminate.
  - discriminate.
  - reflexivity.
  - repeat split; assumption.
Defined.

(** C2. Success and listing round trip: on an initialised store, a non-empty
    username that is not in the table, a non-empty valid email and a
    non-empty password make [add_user] return [True], and the table then
    holds the row; after two such registrations of distinct usernames into
    an empty table [display_users] returns exactly the two pairs. *)
Theorem add_user_success_and_listing :
  (forall (rows : list Row) (j : list event) (u e p : string),
      valid_input u e p -> ~ In u (map username rows) ->
      let w := World (Users rows) j in
      result (add_user u e p) w = Return true /\
      store (after (add_user u e p) w) = Users (rows ++ [mkRow u e p]) /\
      stored (mkRow u e p) (after (add_user u e p) w)) /\
  (forall (j : list event) (u1 e1 p1 u2 e2 p2 : string),
      valid_input u1 e1 p1 -> valid_input u2 e2 p2 -> u1 <> u2 ->
      let w := World (Users []) j in
      result (add_user u1 e1 p1) w = Return true /\
      result (add_user u2 e2 p2) (after (add_user u1 e1 p1) w) = Return true /\
      result (add_user u1 e1 p1 ;;; add_user u2 e2 p2 ;;; display_users)%py w
      = Return [(u1, e1); (u2, e2)]).
Proof.
  split.
  - intros rows j u e p Hok Hnew w. subst w. unfold result, after, stored.
    apply ProgramFacts.has_username_not_in in Hnew.
    rewrite (ProgramFacts.add_user_fresh u e p rows j Hok Hnew). simpl.
    repeat split. apply in_or_app. right. now left.
  - intros j u1 e1 p1 u2 e2 p2 H1 H2 Hne w. subst w. unfold result, after, bind.
    rewrite (ProgramFacts.add_user_fresh u1 e1 p1 [] j H1 eq_refl). simpl.
    assert (Hnew : existsb (has_username u2) [mkRow u1 e1 p1] = false).
    { simpl. unfold has_username. simpl. rewrite orb_false_r.
      apply String.eqb_neq. exact Hne. }
    rewrite (ProgramFacts.add_user_fresh u2 e2 p2 _ _ H2 Hnew). simpl.
    repeat split.
Qed.

Lemma add_user_success_and_listing_witness :
  result (add_user "u3" "u3@x.co" "p3")
    (World (Users [mkRow "u1" "u1@x.co" "p1"]) []) = Return true /\
  result (add_user "u1" "u1@x.co" "p1" ;;; add_user "u2" "u2@x.co" "p2" ;;;
          display_users)%py (World (Users []) [])
  = Return [("u1", "u1@x.co"); ("u2", "u2@x.co")].
Proof.
  destruct add_user_success_and_listing as [Hone Htwo]. split.
  - apply (Hone [mkRow "u1" "u1@x.co" "p1"] [] "u3" "u3@x.co" "p3").
    + repeat split; try discriminate.
    + simpl. intros [H | []]. discriminate H.
  - apply (Htwo [] "u1" "u1@x.co" "p1" "u2" "u2@x.co" "p2").
    + repeat split; try discriminate.
    + repeat split; try discriminate.
    + discriminate.
Defined.

(** C3. Validation comes first: when the username, the email or the password
    is empty, or the email fails [is_valid_email], [add_user] returns [False]
    and the world is the one before the call: the table is untouched and
    nothing reached the storage layer. *)
Theorem add_user_rejects_before_store (w : world) (u e p : string) :
  invalid_input u e p ->
  add_user u e p w = (Return false, w) /\
  store (after (add_user u e p) w) = store w /\
  journal (after (add_user u e p) w) = journal w.
Proof.
  intro H. unfold after. rewrite (ProgramFacts.add_user_invalid u e p w H).
  repeat split.
Qed.

Lemma add_user_rejects_before_store_witness :
  let w := World (Users [mkRow "v" "v@x.co" "pw"]) [] in
  add_user "" "a@b.co" "p" w = (Return false, w) /\
  add_user "u" "" "p" w = (Return false, w) /\
  add_user "u" "a@b.co" "" w = (Return false, w) /\
  add_user "u" "not-an-email" "p" w = (Return false, w).
Proof.
  intro w.
  pose proof (fun u e p H => proj1 (add_user_rejects_before_store w u e p H))
    as reject.
  split; [|split; [|split]]; apply reject.
  - left. reflexivity.
  - right. left. reflexivity.
  - right. right. left. reflexivity.
  - right. right. right. reflexivity.
Defined.

(** C6. [add_user] never raises: on every world, the unusable store and the
    store without table included, and for all strings, it returns a boolean;
    the boolean is [True] only when the inputs are valid and the table exists
    without that username, so every failure comes back as [False]. *)
Theorem add_user_never_raises (w : world) (u e p : string) :
  exists b : bool,
    result (add_user u e p) w = Return b /\
    (b = true ->
     valid_input u e p /\
     exists rows, store w = Users rows /\ ~ In u (map username rows)).
Proof.
  unfold result.
  destruct (ProgramFacts.valid_or_invalid u e p) as [Hok | Hbad].
  - destruct w as [[| | rows] j].
    + rewrite (ProgramFacts.add_user_unavailable u e p j Hok).
      exists false. split; [reflexivity | discriminate].
    + rewrite (ProgramFacts.add_user_no_table u e p j Hok).
      exists false. split; [reflexivity | discriminate].
    + destruct (existsb (has_username u) rows) eqn:E.
      * rewrite (ProgramFacts.add_user_duplicate u e p rows j Hok E).
        exists false. split; [reflexivity | discriminate].
      * rewrite (ProgramFacts.add_user_fresh u e p rows j Hok E).
        exists true. split; [reflexivity|]. intros _. split; [exact Hok|].
        exists rows. split; [reflexivity|].
        now apply ProgramFacts.has_username_not_in.
  - rewrite (ProgramFacts.add_user_invalid u e p w Hbad).
    exists false. split; [reflexivity | discriminate].
Qed.

(** ** Authentication *)

(** C4. Authentication: with non-empty username and password,
    [authenticate_user] returns [True] exactly when some row of the table has
    that username and that password, both compared character by character;
    on an initialised store it returns a boolean, the store unchanged; with
    an empty username or password it returns [False] and nothing reaches the
    storage layer. *)
Theorem authenticate_user_spec :
  (forall (w : world) (u p : string),
      u <> "" -> p <> "" ->
      (result (authenticate_user u p) w = Return true <->
       exists r, stored r w /\ username r = u /\ password r = p)) /\
  (forall (rows : list Row) (j : list event) (u p : string),
      u <> "" -> p <> "" ->
      let w := World (Users rows) j in
      result (authenticate_user u p) w = Return (existsb (matches u p) rows) /\
      store (after (authenticate_user u p) w) = Users rows) /\
  (forall (w : world) (u p : string),
      u = "" \/ p = "" -> authenticate_user u p w = (Return false, w)).
Proof.
  split; [|split].
  - intros [[| | rows] j] u p Hu Hp; unfold result, stored.
    + rewrite (ProgramFacts.authenticate_user_unavailable u p j Hu Hp). simpl.
      split; [discriminate | intros (r & [] & _)].
    + rewrite (ProgramFacts.authenticate_user_no_table u p j Hu Hp). simpl.
      split; [discriminate | intros (r & [] & _)].
    + rewrite (ProgramFacts.authenticate_user_users u p rows j Hu Hp). simpl.
      rewrite <- ProgramFacts.matches_exists.
      split; [intro H; now injection H | now intros ->].
  - intros rows j u p Hu Hp w. subst w. unfold result, after.
    now rewrite (ProgramFacts.authenticate_user_users u p rows j Hu Hp).
  - intros w u p H. unfold authenticate_user.
    now rewrite (ProgramFacts.auth_guard_empty u p H).
Qed.

Lemma authenticate_user_spec_witness :
  let w := after (add_user "a" "a@x.co" "pw") (World (Users []) []) in
  result (authenticate_user "a" "pw") w = Return true /\
  result (authenticate_user "a" "wrong") w = Return false /\
  result (authenticate_user "nope" "pw") w = Return false /\
  authenticate_user "" "" w = (Return false, w).
Proof.
  intro w.
  destruct authenticate_user_spec as (Hiff & Hrun & Hempty).
  split; [|split; [|split]].
  - apply (Hiff w "a" "pw"); try discriminate.
    exists (mkRow "a" "a@x.co" "pw"). repeat split. left. reflexivity.
  - apply (Hrun [mkRow "a" "a@x.co" "pw"] _ "a" "wrong"); discriminate.
  - apply (Hrun [mkRow "a" "a@x.co" "pw"] _ "nope" "pw"); discriminate.
  - apply (Hempty w "" ""). left. reflexivity.
Defined.

(** C7. [authenticate_user] raises where the specification promises
    [False]: on a store without the table [users], with non-empty
    credentials, the [sqlite3.OperationalError] of the query leaves the
    function, which has no handler; [add_user] on the same store returns
    [False]. *)
Theorem authenticate_user_raises_without_table :
  result (authenticate_user "u" "p") (World NoTable []) = Raise OperationalError /\
  result (authenticate_user "u" "p") (World Unavailable []) = Raise OperationalError /\
  result (add_user "u" "a@b.co" "p") (World NoTable []) = Return false.
Proof.
  repeat split.
Qed.

(** ** Listing *)

(** C8. Listing: on an initialised store [display_users] returns one
    (username, email) pair per row of the table, in table order and without
    the passwords, and leaves the table as it is; on a table without rows it
    returns the empty list. *)
Theorem display_users_lists_rows (rows : list Row) (j : list event) :
  let w := World (Users rows) j in
  result display_users w = Return (map (fun r => (username r, email r)) rows) /\
  (exists users, result display_users w = Return users /\
                 length users = length rows) /\
  store (after display_users w) = Users rows /\
  result display_users (World (Users []) j) = Return [].
Proof.
  intro w. subst w. unfold result, after.
  rewrite ProgramFacts.display_users_users. simpl. repeat split.
  exists (listing rows). split; [reflexivity|]. unfold listing. apply length_map.
Qed.

(** ** Initialisation *)

Module InitFacts.

Lemma create_db_no_table (j : list event) :
  create_db (World NoTable j) =
  (Return tt,
   World (Users [])
     (Commit :: Commit :: Execute CreateTableIfNotExists :: Connect :: j)).
Proof. reflexivity. Qed.

Lemma create_db_users (rows : list Row) (j : list event) :
  create_db (World (Users rows) j) =
  (Return tt,
   World (Users rows)
     (Commit :: Commit :: Execute CreateTableIfNotExists :: Connect :: j)).
Proof. reflexivity. Qed.

End InitFacts.

(** C9. Idempotent initialisation: whether or not the table exists,
    [create_db] returns without error; it creates the empty table when there
    is none and keeps every row when there is one; a second call returns
    without error too and leaves the store as the first call left it. *)
Theorem create_db_idempotent :
  (forall j : list event,
      result create_db (World NoTable j) = Return tt /\
      store (after create_db (World NoTable j)) = Users []) /\
  (forall (rows : list Row) (j : list event),
      result create_db (World (Users rows) j) = Return tt /\
      store (after create_db (World (Users rows) j)) = Users rows) /\
  (forall w : world,
      store w <> Unavailable ->
      result (create_db ;;; create_db)%py w = Return tt /\
      store (after (create_db ;;; create_db)%py w) = store (after create_db w) /\
      rows_of (store (after create_db w)) = rows_of (store w)).
Proof.
  split; [|split].
  - intro j. unfold result, after.
    now rewrite InitFacts.create_db_no_table.
  - intros rows j. unfold result, after.
    now rewrite InitFacts.create_db_users.
  - intros [[| | rows] j] Hw; [now contradiction Hw | |];
      unfold result, after, bind.
    + rewrite InitFacts.create_db_no_table, InitFacts.create_db_users.
      repeat split.
    + rewrite !InitFacts.create_db_users. repeat split.
Qed.

Lemma create_db_idempotent_witness :
  let w := World (Users [mkRow "u" "a@b.co" "p"]) [] in
  result (create_db ;;; create_db)%py w = Return tt /\
  store (after (create_db ;;; create_db)%py w) = Users [mkRow "u" "a@b.co" "p"].
Proof.
  intro w. destruct create_db_idempotent as (_ & Hkeep & Htwice).
  destruct (Htwice w) as (Hret & Hsame & _); [discriminate|].
  split; [exact Hret|].
  rewrite Hsame. apply (Hkeep [mkRow "u" "a@b.co" "p"] []).
Defined.

(** ** The store without table *)

(** C10. On a store without the table [users], [add_user] with valid inputs
    returns [False], while [authenticate_user] with non-empty credentials and
    [display_users] raise the [sqlite3.OperationalError] of their query. *)
Theorem uninitialized_store_asymmetry
  (j : list event) (u e p u' p' : string) :
  valid_input u e p -> u' <> "" -> p' <> "" ->
  let w := World NoTable j in
  result (add_user u e p) w = Return false /\
  result (authenticate_user u' p') w = Raise OperationalError /\
  result display_users w = Raise OperationalError.
Proof.
  intros Hok Hu Hp w. subst w. unfold result.
  rewrite (ProgramFacts.add_user_no_table u e p j Hok).
  rewrite (ProgramFacts.authenticate_user_no_table u' p' j Hu Hp).
  repeat split.
Qed.

Lemma uninitialized_store_asymmetry_witness :
  let w := World NoTable [] in
  result (add_user "u" "a@b.co" "p") w = Return false /\
  result (authenticate_user "u" "p") w = Raise OperationalError /\
  result display_users w = Raise OperationalError.
Proof.
  apply (uninitialized_store_asymmetry [] "u" "a@b.co" "p" "u" "p").
  - repeat split; discriminate.
  - discriminate.
  - discriminate.
Defined.


(** * Further properties of the program *)

(** ** What [is_valid_email] lets through and what it stops *)

Module EmailMore.
Import Str Regex.

Lemma starts_with_append (p : pattern) :
  forall s t, starts_with p s -> starts_with p (s ++ t).
Proof.
  induction p as [|[f [|]] p IH]; intros s t; simpl.
  - trivial.
  - intros (c & rest & -> & Hc & Hp). exists c, (rest ++ t). auto.
  - intros (run & rest & -> & Hne & Hall & Hp). exists run, (rest ++ t).
    rewrite StrFacts.append_assoc. auto.
Qed.

Lemma length_append (a b : string) :
  String.length (a ++ b) = String.length a + String.length b.
Proof.
  induction a as [|c a IH]; simpl; [reflexivity | now rewrite IH].
Qed.

Lemma length_positive (a : string) : a <> "" -> 1 <= String.length a.
Proof.
  destruct a; [congruence | simpl; lia].
Qed.

Lemma all_chars_append (f : ascii -> bool) (a b : string) :
  all_chars f (a ++ b) = all_chars f a && all_chars f b.
Proof.
  induction a as [|c a IH]; simpl; [reflexivity|].
  now rewrite IH, andb_assoc.
Qed.

(** No dot before the next ['@']: the text cannot go on as [domain.]. *)
Lemma no_domain_dot (d : string) :
  forall d' rest tail,
    all_chars (not_char ".") d = true -> all_chars (not_char "@") d' = true ->
    d ++ String "@" rest <> d' ++ String "." tail.
Proof.
  induction d as [|x d IH]; intros [|y d'] rest tail Hd Hd' E; simpl in *.
  - discriminate E.
  - injection E as <- _. discriminate Hd'.
  - injection E as -> _. discriminate Hd.
  - injection E as _ E. apply andb_true_iff in Hd as [_ Hd], Hd' as [_ Hd'].
    exact (IH d' rest tail Hd Hd' E).
Qed.

(** Two readings of one text up to its first ['@'] agree. *)
Lemma first_at_unique (a : string) :
  forall a' b b',
    all_chars (not_char "@") a = true -> all_chars (not_char "@") a' = true ->
    a ++ String "@" b = a' ++ String "@" b' -> a = a' /\ b = b'.
Proof.
  induction a as [|x a IH]; intros [|y a'] b b' Ha Ha' E; simpl in *.
  - injection E as ->. auto.
  - injection E as <- _. discriminate Ha'.
  - injection E as -> _. discriminate Ha.
  - injection E as -> E. apply andb_true_iff in Ha as [_ Ha], Ha' as [_ Ha'].
    destruct (IH a' b b' Ha Ha' E) as [-> ->]. auto.
Qed.

End EmailMore.

(** X1. Text after a valid address is not looked at: when [is_valid_email]
    accepts [e], it accepts [e] followed by any string. *)
Theorem is_valid_email_ignores_suffix (e s : string) :
  is_valid_email e = true -> is_valid_email (e ++ s) = true.
Proof.
  rewrite !EmailFacts.valid_email_starts_with.
  apply EmailMore.starts_with_append.
Qed.

Lemma is_valid_email_ignores_suffix_witness :
  is_valid_email ("user@example.com" ++ "@@ not an address") = true.
Proof.
  apply (is_valid_email_ignores_suffix "user@example.com" "@@ not an address").
  reflexivity.
Defined.

(** X2. What every accepted address has: at least five characters, a first
    character that is not ['@'], an ['@'] and a ['.']. *)
Theorem is_valid_email_needs (e : string) :
  is_valid_email e = true ->
  5 <= String.length e /\
  (exists c rest, e = String c rest /\ c <> "@"%char) /\
  no_at e = false /\ no_dot e = false.
Proof.
  rewrite EmailFacts.valid_email_starts_with.
  unfold email_pattern, no_at, no_dot. simpl.
  intros (l & r1 & -> & Hl & Al & c1 & r2 & -> & Hc1 & d & r3 & -> & Hd & Ad
          & c2 & r4 & -> & Hc2 & t & rest & -> & Ht & At & _).
  apply EmailFacts.is_char_eq in Hc1, Hc2. subst c1 c2.
  repeat split.
  - rewrite EmailMore.length_append. simpl.
    rewrite EmailMore.length_append. simpl.
    rewrite EmailMore.length_append.
    pose proof (EmailMore.length_positive l Hl).
    pose proof (EmailMore.length_positive d Hd).
    pose proof (EmailMore.length_positive t Ht). lia.
  - destruct l as [|c l]; [congruence|]. exists c, (l ++ String "@" (d ++ String "." (t ++ rest))).
    split; [reflexivity|]. simpl in Al. apply andb_true_iff in Al as [Hc _].
    intros ->. discriminate Hc.
  - rewrite EmailMore.all_chars_append. simpl. apply andb_false_r.
  - rewrite EmailMore.all_chars_append. simpl.
    rewrite EmailMore.all_chars_append. simpl.
    rewrite andb_false_r. apply andb_false_r.
Qed.

Lemma is_valid_email_needs_witness :
  5 <= String.length "a@b.c" /\ no_at "a@b.c" = false /\ no_dot "a@b.c" = false.
Proof.
  destruct (is_valid_email_needs "a@b.c") as (H1 & _ & H3 & H4).
  - reflexivity.
  - auto.
Defined.

(** X3. A second ['@'] before any dot is fatal: when [local] holds no ['@']
    and [host] holds no ['.'], [is_valid_email] rejects
    [local@host@anything]. *)
Theorem is_valid_email_rejects_second_at (local host rest : string) :
  no_at local = true -> no_dot host = true ->
  is_valid_email (local ++ "@" ++ host ++ "@" ++ rest) = false.
Proof.
  intros Hl Hh. destruct (is_valid_email _) eqn:E; [exfalso | reflexivity].
  apply EmailFacts.valid_email_starts_with in E.
  unfold email_pattern in E. simpl in E.
  destruct E as (l & r1 & E & _ & Al & c1 & r2 & -> & Hc1 & d & r3 & -> & _ & Ad
                 & c2 & r4 & -> & Hc2 & _).
  apply EmailFacts.is_char_eq in Hc1, Hc2. subst c1 c2.
  destruct (EmailMore.first_at_unique local l _ _ Hl Al E) as [_ E'].
  exact (EmailMore.no_domain_dot host d rest r4 Hh Ad E').
Qed.

Lemma is_valid_email_rejects_second_at_witness :
  is_valid_email ("user" ++ "@" ++ "host" ++ "@" ++ "example.com") = false.
Proof.
  apply (is_valid_email_rejects_second_at "user" "host" "example.com");
    reflexivity.
Defined.


(** ** The table under arbitrary callers *)

Module StoreFacts.

(** The two ways a call of [add_user] can end. *)
Lemma add_user_cases (u e p : string) (w : world) :
  (result (add_user u e p) w = Return false /\
   store (after (add_user u e p) w) = store w) \/
  (valid_input u e p /\
   exists rows,
     store w = Users rows /\ existsb (has_username u) rows = false /\
     result (add_user u e p) w = Return true /\
     store (after (add_user u e p) w) = Users (rows ++ [mkRow u e p])).
Proof.
  unfold result, after.
  destruct (ProgramFacts.valid_or_invalid u e p) as [Hok | Hbad].
  - destruct w as [[| | rows] j].
    + rewrite (ProgramFacts.add_user_unavailable u e p j Hok). now left.
    + rewrite (ProgramFacts.add_user_no_table u e p j Hok). now left.
    + destruct (existsb (has_username u) rows) eqn:E.
      * rewrite (ProgramFacts.add_user_duplicate u e p rows j Hok E). now left.
      * rewrite (ProgramFacts.add_user_fresh u e p rows j Hok E).
        right. split; [exact Hok|]. exists rows. auto.
  - rewrite (ProgramFacts.add_user_invalid u e p w Hbad). now left.
Qed.

Lemma authenticate_user_keeps_store (u p : string) (w : world) :
  store (after (authenticate_user u p) w) = store w.
Proof.
  unfold after, authenticate_user.
  destruct (negb (Str.truthy u) || negb (Str.truthy p)); [reflexivity|].
  now destruct w as [[| | rows] j].
Qed.

Lemma display_users_keeps_store (w : world) :
  store (after display_users w) = store w.
Proof.
  now destruct w as [[| | rows] j].
Qed.

Lemma create_db_keeps_rows (w : world) :
  rows_of (store (after create_db w)) = rows_of (store w).
Proof.
  now destruct w as [[| | rows] j].
Qed.

(** Every call keeps the rows or appends one valid row with a new
    username. *)
Lemma perform_rows (c : call) (w : world) :
  rows_of (store (perform c w)) = rows_of (store w) \/
  exists r,
    rows_of (store (perform c w)) = (rows_of (store w) ++ [r])%list /\
    well_formed_row r /\ ~ In (username r) (map username (rows_of (store w))).
Proof.
  destruct c as [| u e p | u p |]; simpl.
  - left. apply create_db_keeps_rows.
  - destruct (add_user_cases u e p w) as [[_ H] | (Hok & rows & Hw & Hnew & _ & H)].
    + left. now rewrite H.
    + right. exists (mkRow u e p). rewrite H, Hw. simpl.
      repeat split; try apply Hok.
      now apply ProgramFacts.has_username_not_in.
  - left. now rewrite authenticate_user_keeps_store.
  - left. now rewrite display_users_keeps_store.
Qed.

Lemma perform_invariant (c : call) (w : world) :
  table_invariant (store w) -> table_invariant (store (perform c w)).
Proof.
  unfold table_invariant, unique_usernames. intros [Hu Hf].
  destruct (perform_rows c w) as [-> | (r & -> & Hr & Hnew)]; [now split|].
  split.
  - rewrite map_app. simpl.
    apply NoDup_app; [exact Hu | repeat constructor; intros [] |].
    intros a Ha [<- | []]. now apply Hnew.
  - apply Forall_app. split; [exact Hf|].
    apply Forall_cons; [exact Hr | apply Forall_nil].
Qed.

Lemma perform_keeps_rows (c : call) (w : world) (r : Row) :
  stored r w -> stored r (perform c w).
Proof.
  unfold stored.
  destruct (perform_rows c w) as [-> | (x & -> & _)]; [auto|].
  intro H. apply in_or_app. now left.
Qed.

Lemma unique_row (rows : list Row) (r1 r2 : Row) :
  unique_usernames rows -> In r1 rows -> In r2 rows ->
  username r1 = username r2 -> r1 = r2.
Proof.
  unfold unique_usernames. induction rows as [|x rows IH]; simpl; [tauto|].
  intros Hnd H1 H2 E. inversion Hnd as [|? ? Hx Hrest]; subst.
  destruct H1 as [-> | H1], H2 as [-> | H2].
  - reflexivity.
  - exfalso. apply Hx. rewrite E. now apply in_map.
  - exfalso. apply Hx. rewrite <- E. now apply in_map.
  - now apply IH.
Qed.

Lemma matches_not_username (u q : string) (rows : list Row) :
  existsb (has_username u) rows = false -> existsb (matches u q) rows = false.
Proof.
  induction rows as [|r rows IH]; simpl; [reflexivity|].
  unfold has_username at 1, matches at 1.
  intro H. apply orb_false_iff in H as [H1 H2].
  now rewrite H1, (IH H2).
Qed.

End StoreFacts.

(** X4. The table invariant holds under every caller: if no two rows share
    a username and every row has three non-empty fields and an email that
    [is_valid_email] accepts, the same is true after any sequence of calls
    of the four functions; from a store without table it is true of every
    table a caller can build. *)
Theorem session_keeps_table_invariant (cs : list call) :
  (forall w : world,
      table_invariant (store w) -> table_invariant (store (session cs w))) /\
  (forall j : list event, table_invariant (store (session cs (World NoTable j)))).
Proof.
  assert (Hgen : forall w, table_invariant (store w) ->
                           table_invariant (store (session cs w))).
  { unfold session. induction cs as [|c cs IH]; intros w Hw; simpl; [exact Hw|].
    apply IH. now apply StoreFacts.perform_invariant. }
  split; [exact Hgen|].
  intro j. apply Hgen. split; constructor.
Qed.

Lemma session_keeps_table_invariant_witness :
  table_invariant
    (store (session [AddUser "u" "c@d.co" "q"; AddUser "v" "v@x.co" "pw"]
              (World (Users [mkRow "u" "a@b.co" "p"]) []))).
Proof.
  apply (proj1 (session_keeps_table_invariant _)).
  split; simpl.
  - repeat constructor. intros [].
  - repeat constructor; discriminate.
Defined.

(** X5. Rows are never lost or changed: a row that is in the table before a
    sequence of calls of the four functions is in the table after it, with
    the same email and password. *)
Theorem session_keeps_rows (cs : list call) (w : world) (r : Row) :
  stored r w -> stored r (session cs w).
Proof.
  unfold session. revert w. induction cs as [|c cs IH]; intros w Hr; simpl.
  - exact Hr.
  - apply IH. now apply StoreFacts.perform_keeps_rows.
Qed.

Lemma session_keeps_rows_witness :
  stored (mkRow "u" "a@b.co" "p")
    (session [AddUser "u" "c@d.co" "q"; CreateDb; AuthenticateUser "u" "q";
              AddUser "v" "v@x.co" "pw"; DisplayUsers]
       (World (Users [mkRow "u" "a@b.co" "p"]) [])).
Proof.
  apply (session_keeps_rows _ (World (Users [mkRow "u" "a@b.co" "p"]) [])).
  simpl. left. reflexivity.
Defined.

(** X6. [authenticate_user] and [display_users] only read: on every world,
    whether they return or raise, the store after the call is the store
    before it. *)
Theorem reads_keep_store (w : world) (u p : string) :
  store (after (authenticate_user u p) w) = store w /\
  store (after display_users w) = store w.
Proof.
  split.
  - apply StoreFacts.authenticate_user_keeps_store.
  - apply StoreFacts.display_users_keeps_store.
Qed.

(** X7. The boolean of [add_user] tells what happened to the store: after
    [False] the store is the one before the call, whatever the reason; after
    [True] the table existed and is now its old rows followed by the one new
    row. *)
Theorem add_user_result_tells_store (w : world) (u e p : string) :
  (result (add_user u e p) w = Return false ->
   store (after (add_user u e p) w) = store w) /\
  (result (add_user u e p) w = Return true ->
   exists rows,
     store w = Users rows /\
     store (after (add_user u e p) w) = Users (rows ++ [mkRow u e p])).
Proof.
  destruct (StoreFacts.add_user_cases u e p w)
    as [[Hres Hst] | (_ & rows & Hw & _ & Hres & Hst)]; rewrite Hres; split.
  - intros _. exact Hst.
  - discriminate.
  - discriminate.
  - intros _. exists rows. auto.
Qed.

Lemma add_user_result_tells_store_witness :
  store (after (add_user "u" "a@b.co" "p") (World NoTable [])) = NoTable /\
  exists rows,
    Users [] = Users rows /\
    store (after (add_user "u" "a@b.co" "p") (World (Users []) []))
    = Users (rows ++ [mkRow "u" "a@b.co" "p"]).
Proof.
  split.
  - apply (proj1 (add_user_result_tells_store (World NoTable []) "u" "a@b.co" "p")).
    reflexivity.
  - apply (proj2 (add_user_result_tells_store (World (Users []) []) "u" "a@b.co" "p")).
    reflexivity.
Defined.

(** ** Registration and authentication together *)

Module LoginFacts.

Lemma authenticate_user_false_on_empty (u p : string) (w : world) :
  u = "" \/ p = "" -> authenticate_user u p w = (Return false, w).
Proof.
  intro H. unfold authenticate_user.
  now rewrite (ProgramFacts.auth_guard_empty u p H).
Qed.

Lemma empty_or_not (u p : string) : (u = "" \/ p = "") \/ (u <> "" /\ p <> "").
Proof.
  destruct u; [now left; left|]. destruct p; [now left; right|].
  right. split; discriminate.
Qed.

(** The outcome of [authenticate_user] is a function of the store. *)
Lemma authenticate_user_result (u p : string) (w : world) :
  result (authenticate_user u p) w =
  if negb (Str.truthy u) || negb (Str.truthy p) then Return false
  else match store w with
       | Users rows => Return (existsb (matches u p) rows)
       | _ => Raise OperationalError
       end.
Proof.
  unfold result.
  destruct (empty_or_not u p) as [H | [Hu Hp]].
  - rewrite (authenticate_user_false_on_empty u p w H).
    now rewrite (ProgramFacts.auth_guard_empty u p H).
  - rewrite (ProgramFacts.auth_guard_nonempty u p Hu Hp).
    destruct w as [[| | rows] j]; simpl.
    + now rewrite (ProgramFacts.authenticate_user_unavailable u p j Hu Hp).
    + now rewrite (ProgramFacts.authenticate_user_no_table u p j Hu Hp).
    + now rewrite (ProgramFacts.authenticate_user_users u p rows j Hu Hp).
Qed.

Lemma existsb_matches_app (u q : string) (rows more : list Row) :
  existsb (matches u q) (rows ++ more) =
  existsb (matches u q) rows || existsb (matches u q) more.
Proof.
  apply existsb_app.
Qed.

End LoginFacts.

(** X8. Registration opens exactly one login: after [add_user u e p] has
    returned [True], [authenticate_user u q] with a non-empty [q] returns
    [True] when [q] is [p] and [False] for every other password. *)
Theorem registered_user_logs_in (w : world) (u e p q : string) :
  result (add_user u e p) w = Return true -> q <> "" ->
  result (authenticate_user u q) (after (add_user u e p) w)
  = Return (String.eqb p q).
Proof.
  intros Hres Hq.
  destruct (StoreFacts.add_user_cases u e p w)
    as [[Hf _] | (Hok & rows & Hw & Hnew & _ & Hst)]; [congruence|].
  rewrite LoginFacts.authenticate_user_result, Hst.
  destruct Hok as (Hu & _).
  rewrite (ProgramFacts.auth_guard_nonempty u q Hu Hq).
  rewrite LoginFacts.existsb_matches_app.
  rewrite (StoreFacts.matches_not_username u q rows Hnew). simpl.
  unfold matches. simpl. now rewrite String.eqb_refl, orb_false_r.
Qed.

Lemma registered_user_logs_in_witness :
  let w := after (add_user "a" "a@x.co" "pw") (World (Users []) []) in
  result (authenticate_user "a" "pw") w = Return true /\
  result (authenticate_user "a" "PW") w = Return false.
Proof.
  intro w. split.
  - apply (registered_user_logs_in (World (Users []) []) "a" "a@x.co" "pw" "pw");
      [reflexivity | discriminate].
  - apply (registered_user_logs_in (World (Users []) []) "a" "a@x.co" "pw" "PW");
      [reflexivity | discriminate].
Defined.

(** X9. Registration of one user does not touch the login of another: for
    usernames [u'] other than [u], [authenticate_user u' q] gives the same
    outcome after [add_user u e p] as before it, on every world and whether
    [add_user] succeeded or not. *)
Theorem add_user_keeps_other_logins (w : world) (u e p u' q : string) :
  u' <> u ->
  result (authenticate_user u' q) (after (add_user u e p) w)
  = result (authenticate_user u' q) w.
Proof.
  intro Hne. rewrite !LoginFacts.authenticate_user_result.
  destruct (StoreFacts.add_user_cases u e p w)
    as [[_ Hst] | (_ & rows & Hw & _ & _ & Hst)]; rewrite Hst; [reflexivity|].
  rewrite Hw, LoginFacts.existsb_matches_app. simpl.
  unfold matches at 2. simpl.
  apply not_eq_sym, String.eqb_neq in Hne. rewrite Hne. simpl.
  now rewrite orb_false_r.
Qed.

Lemma add_user_keeps_other_logins_witness :
  let w := World (Users [mkRow "v" "v@x.co" "pw"]) [] in
  result (authenticate_user "v" "pw") (after (add_user "u" "a@b.co" "pw") w)
  = result (authenticate_user "v" "pw") w.
Proof.
  intro w.
  apply (add_user_keeps_other_logins w "u" "a@b.co" "pw" "v" "pw").
  discriminate.
Defined.

(** X10. One password per username: on a table without two rows of the same
    username, if [authenticate_user] returns [True] for a username with two
    passwords, the two passwords are the same string. *)
Theorem one_password_per_username (w : world) (u p q : string) :
  unique_usernames (rows_of (store w)) ->
  result (authenticate_user u p) w = Return true ->
  result (authenticate_user u q) w = Return true ->
  p = q.
Proof.
  intros Hu. rewrite !LoginFacts.authenticate_user_result.
  destruct (negb (Str.truthy u) || negb (Str.truthy p)); [discriminate|].
  destruct (negb (Str.truthy u) || negb (Str.truthy q)); [discriminate|].
  destruct (store w) as [| | rows]; try discriminate. simpl in Hu.
  intros Hp Hq. injection Hp as Hp. injection Hq as Hq.
  apply ProgramFacts.matches_exists in Hp as (r1 & In1 & U1 & P1).
  apply ProgramFacts.matches_exists in Hq as (r2 & In2 & U2 & P2).
  assert (E : r1 = r2) by (apply (StoreFacts.unique_row rows); congruence).
  congruence.
Qed.

Lemma one_password_per_username_witness :
  "pw" = "pw".
Proof.
  apply (one_password_per_username
           (World (Users [mkRow "a" "a@x.co" "pw"; mkRow "b" "b@x.co" "pw2"]) [])
           "a" "pw" "pw").
  - simpl. repeat constructor; simpl; intuition discriminate.
  - reflexivity.
  - reflexivity.
Defined.

(** ** Exceptions *)


Module TableFacts.




End TableFacts.



(** ** The test methods *)

Module TestFacts.
Import Unittest.

Ltac valid_constants := repeat split; discriminate.

Lemma calling_outcome {A} (m : Py A) (k : A -> Test) (w : world) :
  calling m k w =
  match result m w with
  | Return a => k a (after m w)
  | Raise e => (Errored e, after m w)
  end.
Proof.
  unfold calling, result, after. now destruct (m w) as [[a | e] w'].
Qed.

Lemma add_user_returns (u e p : string) (w : world) :
  exists b : bool, result (add_user u e p) w = Return b.
Proof.
  destruct (StoreFacts.add_user_cases u e p w)
    as [[H _] | (_ & rows & _ & _ & H & _)]; eauto.
Qed.

(** A test that asserts one successful registration. *)
Lemma asserted_registration (u e p : string) (w : world) :
  valid_input u e p ->
  let t := calling (add_user u e p) (fun r => assertTrue r passed) in
  (fst (t w) = Passed <->
   exists rows, store w = Users rows /\ ~ In u (map username rows)) /\
  (fst (t w) = Passed -> fst (t (snd (t w))) = Failed).
Proof.
  intros Hok t. subst t. unfold calling.
  destruct w as [[| | rows] j].
  - rewrite (ProgramFacts.add_user_unavailable u e p j Hok). simpl.
    split; [split; [discriminate | intros (rows & H & _); discriminate H]
           | discriminate].
  - rewrite (ProgramFacts.add_user_no_table u e p j Hok). simpl.
    split; [split; [discriminate | intros (rows & H & _); discriminate H]
           | discriminate].
  - destruct (existsb (has_username u) rows) eqn:E.
    + rewrite (ProgramFacts.add_user_duplicate u e p rows j Hok E). simpl.
      split; [split; [discriminate|] | discriminate].
      intros (rs & H & Hnew). injection H as <-.
      apply ProgramFacts.has_username_not_in in Hnew. congruence.
    + rewrite (ProgramFacts.add_user_fresh u e p rows j Hok E). simpl.
      split.
      * split; [intros _ | reflexivity]. exists rows. split; [reflexivity|].
        now apply ProgramFacts.has_username_not_in.
      * intros _.
        assert (E' : existsb (has_username u) (rows ++ [mkRow u e p]) = true).
        { rewrite existsb_app. simpl. unfold has_username at 2. simpl.
          rewrite String.eqb_refl. now rewrite orb_true_r. }
        now rewrite (ProgramFacts.add_user_duplicate u e p _ _ Hok E').
Qed.

Lemma has_username_appended (u e p : string) (rows : list Row) :
  existsb (has_username u) (rows ++ [mkRow u e p]) = true.
Proof.
  rewrite existsb_app. simpl. unfold has_username at 2. simpl.
  rewrite String.eqb_refl. now rewrite orb_true_r.
Qed.

End TestFacts.

(** X13. Four test methods do not depend on the database:
    [test_add_user_empty_username], [test_add_user_empty_email],
    [test_add_user_empty_password] and
    [test_authenticate_user_empty_credentials] pass on every world, the
    unusable store included, and leave the world as it was. *)
Theorem validation_tests_pass_everywhere (w : world) :
  Unittest.test_add_user_empty_username w = (Unittest.Passed, w) /\
  Unittest.test_add_user_empty_email w = (Unittest.Passed, w) /\
  Unittest.test_add_user_empty_password w = (Unittest.Passed, w) /\
  Unittest.test_authenticate_user_empty_credentials w = (Unittest.Passed, w).
Proof.
  repeat split.
Qed.

(** X14. [test_add_user_success] passes exactly when the table exists and
    holds no user [validuser]; it never ends in an exception; and run again
    on the world it left after passing, it fails. *)
Theorem test_add_user_success_passes_once (w : world) :
  (fst (Unittest.test_add_user_success w) = Unittest.Passed <->
   exists rows, store w = Users rows /\ ~ In "validuser" (map username rows)) /\
  (forall e, fst (Unittest.test_add_user_success w) <> Unittest.Errored e) /\
  (fst (Unittest.test_add_user_success w) = Unittest.Passed ->
   fst (Unittest.test_add_user_success (snd (Unittest.test_add_user_success w)))
   = Unittest.Failed).
Proof.
  assert (Hok : valid_input "validuser" "user@example.com" "password123")
    by TestFacts.valid_constants.
  destruct (TestFacts.asserted_registration _ _ _ w Hok) as [Hiff Hagain].
  split; [exact Hiff | split; [|exact Hagain]].
  intro e. unfold Unittest.test_add_user_success.
  rewrite TestFacts.calling_outcome.
  destruct (TestFacts.add_user_returns "validuser" "user@example.com"
              "password123" w) as [[|] ->]; discriminate.
Qed.

Lemma test_add_user_success_passes_once_witness :
  let w := World (Users []) [] in
  fst (Unittest.test_add_user_success w) = Unittest.Passed /\
  fst (Unittest.test_add_user_success (snd (Unittest.test_add_user_success w)))
  = Unittest.Failed.
Proof.
  intro w.
  destruct (test_add_user_success_passes_once w) as (Hiff & _ & Hagain).
  assert (H : fst (Unittest.test_add_user_success w) = Unittest.Passed).
  { apply Hiff. exists []. split; [reflexivity | intros []]. }
  split; [exact H | exact (Hagain H)].
Defined.

(** X15. [test_add_user_duplicate] passes exactly when the table exists and
    holds no user [duplicateuser]: the first registration must succeed, and
    then the second one is always turned away.  Run again on the world it
    left after passing, it fails at its first assertion. *)
Theorem test_add_user_duplicate_passes_once (w : world) :
  (fst (Unittest.test_add_user_duplicate w) = Unittest.Passed <->
   exists rows,
     store w = Users rows /\ ~ In "duplicateuser" (map username rows)) /\
  (fst (Unittest.test_add_user_duplicate w) = Unittest.Passed ->
   fst (Unittest.test_add_user_duplicate
          (snd (Unittest.test_add_user_duplicate w)))
   = Unittest.Failed).
Proof.
  assert (H1 : valid_input "duplicateuser" "duplicate@example.com" "password123")
    by TestFacts.valid_constants.
  assert (H2 : valid_input "duplicateuser" "newemail@example.com" "newpassword")
    by TestFacts.valid_constants.
  unfold Unittest.test_add_user_duplicate, Unittest.calling.
  destruct w as [[| | rows] j].
  - rewrite (ProgramFacts.add_user_unavailable _ _ _ j H1). simpl.
    split; [split; [discriminate | intros (rows & H & _); discriminate H]
           | discriminate].
  - rewrite (ProgramFacts.add_user_no_table _ _ _ j H1). simpl.
    split; [split; [discriminate | intros (rows & H & _); discriminate H]
           | discriminate].
  - destruct (existsb (has_username "duplicateuser") rows) eqn:E.
    + rewrite (ProgramFacts.add_user_duplicate _ _ _ rows j H1 E). simpl.
      split; [split; [discriminate|] | discriminate].
      intros (rs & H & Hnew). injection H as <-.
      apply ProgramFacts.has_username_not_in in Hnew. congruence.
    + rewrite (ProgramFacts.add_user_fresh _ _ _ rows j H1 E). simpl.
      pose proof (TestFacts.has_username_appended "duplicateuser"
                    "duplicate@example.com" "password123" rows) as E'.
      rewrite (ProgramFacts.add_user_duplicate _ _ _ _ _ H2 E'). simpl.
      split.
      * split; [intros _ | reflexivity]. exists rows. split; [reflexivity|].
        now apply ProgramFacts.has_username_not_in.
      * intros _.
        now rewrite (ProgramFacts.add_user_duplicate _ _ _ _ _ H1 E').
Qed.

Lemma test_add_user_duplicate_passes_once_witness :
  let w := World (Users []) [] in
  fst (Unittest.test_add_user_duplicate w) = Unittest.Passed /\
  fst (Unittest.test_add_user_duplicate
         (snd (Unittest.test_add_user_duplicate w)))
  = Unittest.Failed.
Proof.
  intro w.
  destruct (test_add_user_duplicate_passes_once w) as (Hiff & Hagain).
  assert (H : fst (Unittest.test_add_user_duplicate w) = Unittest.Passed).
  { apply Hiff. exists []. split; [reflexivity | intros []]. }
  split; [exact H | exact (Hagain H)].
Defined.

Module LoginTestFacts.
Import Unittest.

(** The outcome of [add_user] and the store it leaves depend on the store
    alone. *)
Lemma add_user_store_only (u e p : string) (w1 w2 : world) :
  store w1 = store w2 ->
  result (add_user u e p) w1 = result (add_user u e p) w2 /\
  store (after (add_user u e p) w1) = store (after (add_user u e p) w2).
Proof.
  destruct w1 as [d1 j1], w2 as [d2 j2]. simpl. intros <-.
  unfold result, after.
  destruct (ProgramFacts.valid_or_invalid u e p) as [Hok | Hbad].
  - destruct d1 as [| | rows].
    + now rewrite !(ProgramFacts.add_user_unavailable u e p _ Hok).
    + now rewrite !(ProgramFacts.add_user_no_table u e p _ Hok).
    + destruct (existsb (has_username u) rows) eqn:E.
      * now rewrite !(ProgramFacts.add_user_duplicate u e p rows _ Hok E).
      * now rewrite !(ProgramFacts.add_user_fresh u e p rows _ Hok E).
  - now rewrite !(ProgramFacts.add_user_invalid u e p _ Hbad).
Qed.

(** A second registration of the same username changes nothing. *)
Lemma add_user_twice (u e p : string) (w : world) :
  store (after (add_user u e p) (after (add_user u e p) w))
  = store (after (add_user u e p) w).
Proof.
  destruct (StoreFacts.add_user_cases u e p w)
    as [[_ Hs] | (_ & rows & _ & _ & _ & Hs)].
  - apply (add_user_store_only u e p (after (add_user u e p) w) w Hs).
  - destruct (StoreFacts.add_user_cases u e p (after (add_user u e p) w))
      as [[_ H] | (_ & rows' & Hw' & Hnew' & _)]; [exact H|].
    exfalso. rewrite Hs in Hw'. injection Hw' as <-.
    now rewrite TestFacts.has_username_appended in Hnew'.
Qed.

(** A method that registers a user and asserts the outcome of a login:
    its verdict reads off the login on the world after the registration. *)
Lemma login_test (u e p q : string) (expected : bool) (w : world) :
  let t := calling (add_user u e p) (fun _ =>
           calling (authenticate_user u q) (fun r =>
           if expected then assertTrue r passed else assertFalse r passed)) in
  fst (t w) =
  match result (authenticate_user u q) (after (add_user u e p) w) with
  | Return r => if Bool.eqb r expected then Passed else Failed
  | Raise ex => Errored ex
  end /\
  store (snd (t w)) = store (after (add_user u e p) w).
Proof.
  intro t. subst t. unfold calling.
  destruct (TestFacts.add_user_returns u e p w) as [b Hb].
  pose proof (StoreFacts.authenticate_user_keeps_store u q
                (after (add_user u e p) w)) as Hkeep.
  unfold result, after in *.
  destruct (add_user u e p w) as [o w1]. simpl in *. subst o.
  destruct (authenticate_user u q w1) as [[r | ex] w2]; simpl in *.
  - now destruct expected, r.
  - now split.
Qed.

(** The outcome of a login depends on the store alone. *)
Lemma authenticate_user_store_only (u q : string) (w1 w2 : world) :
  store w1 = store w2 ->
  result (authenticate_user u q) w1 = result (authenticate_user u q) w2.
Proof.
  intro H. now rewrite !LoginFacts.authenticate_user_result, H.
Qed.

Lemma login_test_again (u e p q : string) (expected : bool) (w : world) :
  let t := calling (add_user u e p) (fun _ =>
           calling (authenticate_user u q) (fun r =>
           if expected then assertTrue r passed else assertFalse r passed)) in
  fst (t (snd (t w))) = fst (t w).
Proof.
  intro t.
  destruct (login_test u e p q expected w) as [Hv Hs].
  destruct (login_test u e p q expected (snd (t w))) as [Hv' _].
  fold t in Hv, Hs, Hv'. rewrite Hv', Hv.
  destruct (add_user_store_only u e p (snd (t w)) (after (add_user u e p) w) Hs)
    as [_ Hst].
  rewrite add_user_twice in Hst.
  now rewrite (authenticate_user_store_only u q _ _ Hst).
Qed.

End LoginTestFacts.

(** X16. The three test methods that log in
    ([test_authenticate_user_success],
    [test_authenticate_user_invalid_password],
    [test_authenticate_user_not_exist]): without the table each ends in
    [sqlite3.OperationalError], although [add_user] inside it returned
    [False]; on a table that holds none of their usernames each passes; and
    each gives the same verdict when it is run again on the world it left. *)
Theorem authentication_tests (w : world) :
  (~ has_table w ->
   fst (Unittest.test_authenticate_user_success w)
   = Unittest.Errored OperationalError /\
   fst (Unittest.test_authenticate_user_invalid_password w)
   = Unittest.Errored OperationalError /\
   fst (Unittest.test_authenticate_user_not_exist w)
   = Unittest.Errored OperationalError) /\
  (forall rows,
      store w = Users rows ->
      ~ In "testauth" (map username rows) ->
      ~ In "testauth2" (map username rows) ->
      ~ In "nonexistentuser" (map username rows) ->
      fst (Unittest.test_authenticate_user_success w) = Unittest.Passed /\
      fst (Unittest.test_authenticate_user_invalid_password w) = Unittest.Passed /\
      fst (Unittest.test_authenticate_user_not_exist w) = Unittest.Passed) /\
  (fst (Unittest.test_authenticate_user_success
          (snd (Unittest.test_authenticate_user_success w)))
   = fst (Unittest.test_authenticate_user_success w) /\
   fst (Unittest.test_authenticate_user_invalid_password
          (snd (Unittest.test_authenticate_user_invalid_password w)))
   = fst (Unittest.test_authenticate_user_invalid_password w) /\
   fst (Unittest.test_authenticate_user_not_exist
          (snd (Unittest.test_authenticate_user_not_exist w)))
   = fst (Unittest.test_authenticate_user_not_exist w)).
Proof.
  split; [|split].
  - intro Hno. destruct w as [[| | rows] j].
    + repeat split.
    + repeat split.
    + exfalso. apply Hno. now exists rows.
  - intros rows Hw H1 H2 H3. destruct w as [d j]. simpl in Hw. subst d.
    apply ProgramFacts.has_username_not_in in H1, H2, H3.
    unfold Unittest.test_authenticate_user_success,
      Unittest.test_authenticate_user_invalid_password,
      Unittest.test_authenticate_user_not_exist, Unittest.calling.
    rewrite (ProgramFacts.add_user_fresh
               "testauth" "auth@example.com" "password123" rows j
               ltac:(TestFacts.valid_constants) H1).
    rewrite (ProgramFacts.add_user_fresh
               "testauth2" "auth2@example.com" "correctpassword" rows j
               ltac:(TestFacts.valid_constants) H2).
    rewrite (ProgramFacts.authenticate_user_users "testauth" "password123")
      by (intro H; discriminate H).
    rewrite (ProgramFacts.authenticate_user_users "testauth2" "wrongpassword")
      by (intro H; discriminate H).
    rewrite (ProgramFacts.authenticate_user_users "nonexistentuser" "somepassword")
      by (intro H; discriminate H).
    rewrite !existsb_app.
    rewrite (StoreFacts.matches_not_username "testauth" "password123" rows H1).
    rewrite (StoreFacts.matches_not_username "testauth2" "wrongpassword" rows H2).
    rewrite (StoreFacts.matches_not_username
               "nonexistentuser" "somepassword" rows H3).
    repeat split.
  - split; [|split].
    + exact (LoginTestFacts.login_test_again "testauth" "auth@example.com"
               "password123" "password123" true w).
    + exact (LoginTestFacts.login_test_again "testauth2" "auth2@example.com"
               "correctpassword" "wrongpassword" false w).
    + unfold Unittest.test_authenticate_user_not_exist.
      rewrite !TestFacts.calling_outcome.
      pose proof (StoreFacts.authenticate_user_keeps_store
                    "nonexistentuser" "somepassword" w) as Hk.
      destruct (result (authenticate_user "nonexistentuser" "somepassword") w)
        as [[|] | ex] eqn:E; simpl;
        rewrite (LoginTestFacts.authenticate_user_store_only _ _ _ w Hk), E;
        reflexivity.
Qed.

Lemma authentication_tests_witness :
  fst (Unittest.test_authenticate_user_success (World NoTable []))
  = Unittest.Errored OperationalError /\
  fst (Unittest.test_authenticate_user_success (World (Users []) []))
  = Unittest.Passed.
Proof.
  split.
  - apply (proj1 (authentication_tests (World NoTable []))).
    intros [rows H]. discriminate H.
  - apply (proj1 (proj2 (authentication_tests (World (Users []) []))) []);
      [reflexivity | intros [] | intros [] | intros []].
Defined.

Module ListingTestFacts.
Import Unittest.

Lemma pair_eqb_username (a : string * string) (r : Row) :
  fst a <> username r -> pair_eqb a (username r, email r) = false.
Proof.
  intro H. unfold pair_eqb. simpl.
  apply String.eqb_neq in H. now rewrite H.
Qed.

(** A listing of two entries cannot show three usernames. *)
Lemma two_entries_three_users (rows : list Row) (r : Row) (e1 e2 : string) :
  In r rows -> username r <> "user1" -> username r <> "user2" ->
  Nat.eqb (length (listing rows)) 2
  && existsb (pair_eqb ("user1", e1)) (listing rows)
  && existsb (pair_eqb ("user2", e2)) (listing rows) = false.
Proof.
  intros Hin H1 H2.
  assert (Hother : forall x : Row,
             pair_eqb ("user1", e1) (username x, email x)
             && pair_eqb ("user2", e2) (username x, email x) = false).
  { intro x. unfold pair_eqb. cbn [fst snd].
    destruct (String.eqb_spec "user1" (username x)) as [E1 | E1];
      [|reflexivity].
    destruct (String.eqb_spec "user2" (username x)) as [E2 | E2];
      [|cbn [andb]; now rewrite andb_false_r].
    rewrite <- E1 in E2. discriminate E2. }
  destruct rows as [|a [|b [|c rest]]]; try reflexivity.
  cbn [listing map length Nat.eqb existsb andb].
  destruct Hin as [-> | [-> | []]].
  - rewrite (pair_eqb_username ("user1", e1) r) by (cbn [fst]; congruence).
    rewrite (pair_eqb_username ("user2", e2) r) by (cbn [fst]; congruence).
    cbn [orb]. rewrite !orb_false_r. apply Hother.
  - rewrite (pair_eqb_username ("user1", e1) r) by (cbn [fst]; congruence).
    rewrite (pair_eqb_username ("user2", e2) r) by (cbn [fst]; congruence).
    rewrite !orb_false_r. apply Hother.
Qed.

(** The verdict of [test_display_users] on the table it lists. *)
Lemma test_display_users_verdict (w : world) (rows : list Row) :
  store (after (add_user "user2" "user2@example.com" "password2")
           (after (add_user "user1" "user1@example.com" "password1") w))
  = Users rows ->
  fst (test_display_users w) =
  if Nat.eqb (length (listing rows)) 2
     && existsb (pair_eqb ("user1", "user1@example.com")) (listing rows)
     && existsb (pair_eqb ("user2", "user2@example.com")) (listing rows)
  then Passed else Failed.
Proof.
  unfold test_display_users, calling.
  destruct (TestFacts.add_user_returns
              "user1" "user1@example.com" "password1" w) as [b1 Hb1].
  unfold result, after in *.
  destruct (add_user "user1" "user1@example.com" "password1" w) as [o1 w1].
  simpl in Hb1. subst o1. simpl.
  destruct (TestFacts.add_user_returns
              "user2" "user2@example.com" "password2" w1) as [b2 Hb2].
  unfold result in Hb2.
  destruct (add_user "user2" "user2@example.com" "password2" w1) as [o2 w2].
  simpl in Hb2. subst o2. simpl. intro Hst.
  destruct w2 as [d j]. simpl in Hst. subst d.
  rewrite ProgramFacts.display_users_users.
  unfold assertLen, assertIn, assertTrue, passed.
  destruct (Nat.eqb _ 2); simpl; [|reflexivity].
  destruct (existsb (pair_eqb ("user1", _)) _); simpl; [|reflexivity].
  now destruct (existsb (pair_eqb ("user2", _)) _).
Qed.

End ListingTestFacts.

(** X17. [test_display_users] depends on what the table held before: on an
    empty table it passes; on a table with a row of any username other than
    [user1] and [user2] it fails, because the listing has more than its two
    users. *)
Theorem test_display_users_needs_empty_table :
  (forall j : list event,
      fst (Unittest.test_display_users (World (Users []) j)) = Unittest.Passed) /\
  (forall (w : world) (r : Row),
      stored r w -> username r <> "user1" -> username r <> "user2" ->
      fst (Unittest.test_display_users w) = Unittest.Failed).
Proof.
  split; [reflexivity|].
  intros w r Hr H1 H2.
  set (w2 := after (add_user "user2" "user2@example.com" "password2")
               (after (add_user "user1" "user1@example.com" "password1") w)).
  assert (Hr2 : stored r w2).
  { apply (StoreFacts.perform_keeps_rows
             (AddUser "user2" "user2@example.com" "password2")).
    now apply (StoreFacts.perform_keeps_rows
                 (AddUser "user1" "user1@example.com" "password1")). }
  unfold stored in Hr2.
  destruct (store w2) as [| | rows] eqn:Hst; simpl in Hr2; try contradiction.
  rewrite (ListingTestFacts.test_display_users_verdict w rows Hst).
  now rewrite (ListingTestFacts.two_entries_three_users rows r _ _ Hr2 H1 H2).
Qed.

Lemma test_display_users_needs_empty_table_witness :
  fst (Unittest.test_display_users
         (World (Users [mkRow "validuser" "user@example.com" "password123"]) []))
  = Unittest.Failed.
Proof.
  apply (proj2 test_display_users_needs_empty_table _
           (mkRow "validuser" "user@example.com" "password123")).
  - left. reflexivity.
  - discriminate.
  - discriminate.
Defined.

(** X18. [test_display_users_empty] empties the table by removing the file,
    and that takes the table away: when the removal succeeds the test ends in
    [sqlite3.OperationalError] on every world; when the removal fails the
    test passes exactly on a table without rows. *)
Theorem test_display_users_empty_verdict (w : world) :
  fst (Unittest.test_display_users_empty true w)
  = Unittest.Errored OperationalError /\
  (fst (Unittest.test_display_users_empty false w) = Unittest.Passed
   <-> store w = Users []).
Proof.
  split; [reflexivity|].
  destruct w as [[| | [|r rows]] j].
  - split; discriminate.
  - split; discriminate.
  - split; reflexivity.
  - unfold Unittest.test_display_users_empty, Unittest.tearDownClass,
      Unittest.calling. simpl Unittest.os_remove. cbv iota.
    rewrite ProgramFacts.display_users_users. simpl.
    split; discriminate.
Qed.

(** X19. A run of the whole class on a fresh database file: [setUpClass]
    returns, the methods run sorted by name, nine pass,
    [test_display_users] fails on the rows that the methods before it left,
    and [test_display_users_empty] does not pass, whether the file can be
    removed or not. *)
Theorem run_class_on_fresh_store (in_test at_end : bool) (j : list event) :
  fst (Unittest.run_class in_test at_end (World NoTable j)) =
  Return
    [ ("test_add_user_duplicate", Unittest.Passed);
      ("test_add_user_empty_email", Unittest.Passed);
      ("test_add_user_empty_password", Unittest.Passed);
      ("test_add_user_empty_username", Unittest.Passed);
      ("test_add_user_success", Unittest.Passed);
      ("test_authenticate_user_empty_credentials", Unittest.Passed);
      ("test_authenticate_user_invalid_password", Unittest.Passed);
      ("test_authenticate_user_not_exist", Unittest.Passed);
      ("test_authenticate_user_success", Unittest.Passed);
      ("test_display_users", Unittest.Failed);
      ("test_display_users_empty",
       if in_test then Unittest.Errored OperationalError else Unittest.Failed) ].
Proof.
  destruct in_test, at_end; reflexivity.
Qed.
